(** * Volume binding plugin, nsenter symlink resolver and delete-slots codec

    A shallow embedding of
    - pkg/scheduler/framework/plugins/volumebinding/volume_binding.go
    - the nsenter symlink resolver (EvalSymlinksAtNewRoot)
    - pkg/controller/statefulset/delete_slots.go
    together with the properties their specification states. *)

From Stdlib Require Import ZArith Lia List Ascii String.
From stdpp Require Import base gmap strings list sorting.

Local Open Scope string_scope.
Local Open Scope Z_scope.
Local Open Scope list_scope.

#[local] Set Warnings "-clear-no-such-hyp".

(** Go's [error] interface is observed only through [Error()], so an error
    value is its message. *)
Definition GoError := string.

(* ===================================================================== *)
(** ** Machine integers and their decimal rendering                       *)
(* ===================================================================== *)
Module Strconv.

Definition minInt64 : Z := - 2 ^ 63.
Definition maxInt64 : Z := 2 ^ 63 - 1.

Definition inInt64 (z : Z) : bool := (minInt64 <=? z) && (z <=? maxInt64).

(** Two's-complement wrap-around of a 64-bit signed result. *)
Definition wrap64 (z : Z) : Z := (z + 2 ^ 63) mod 2 ^ 64 - 2 ^ 63.

Definition digitChar (d : Z) : ascii := ascii_of_nat (48 + Z.to_nat d).

(** The digit loop of [strconv.FormatInt] in base 10: the least significant
    digit is produced first and prepended to what is already written. *)
Fixpoint formatBits (fuel : nat) (n : Z) (acc : string) : string :=
  match fuel with
  | O => acc
  | S fuel' =>
      let acc' := String (digitChar (n mod 10)) acc in
      if n <? 10 then acc' else formatBits fuel' (n / 10) acc'
  end.

Definition formatUint (n : Z) : string :=
  formatBits (S (Z.to_nat (Z.log2 n))) n "".

(** [strconv.Itoa] / the [%d] verb. *)
Definition Itoa (z : Z) : string :=
  if z <? 0 then String "-" (formatUint (- z)) else formatUint z.

End Strconv.

(* ===================================================================== *)
(** ** Scheduler framework types used by the plugin                       *)
(* ===================================================================== *)
Module Framework.

(** Modelled from the spec: the framework's [Code] enumeration is declared
    outside the given sources; the outcomes named by the specification are
    success, a hard error, and the two unschedulable outcomes. *)
Inductive Code :=
| Success
| Error
| Unschedulable
| UnschedulableAndUnresolvable.

(** Modelled from the spec: [framework.Status] is declared outside the given
    sources; an outcome is a code with the attached human-readable reasons. *)
Record Status := { code : Code; reasons : list string }.

(** [framework.NewStatus(code, reasons...)]. *)
Definition NewStatus (c : Code) (rs : list string) : Status :=
  {| code := c; reasons := rs |}.

(** [Status.AppendReason]. *)
Definition AppendReason (s : Status) (r : string) : Status :=
  {| code := code s; reasons := reasons s ++ [r] |}.

(** A [*framework.Status]: the nil pointer is the success outcome. *)
Definition StatusPtr := option Status.

Definition IsSuccess (s : StatusPtr) : bool :=
  match s with
  | None => true
  | Some st => match code st with Success => true | _ => false end
  end.

Definition StateKey := string.

(** Modelled from the spec: [framework.StateData] is an interface declared
    outside the given sources.  The plugin stores [allBoundStateData]; any
    other implementation of the interface is a value of another shape. *)
Inductive StateData :=
| allBoundStateData (b : bool)
| otherStateData (typeName : string).

(** [allBoundStateData.Clone] returns the receiver. *)
Definition Clone (d : StateData) : StateData := d.

(** Modelled from the spec: [framework.CycleState] is declared outside the
    given sources; it is the per-cycle key/value store, whose read fails
    when the key is absent. *)
Definition CycleState := gmap StateKey StateData.

Definition NotFound : GoError := "not found".

Definition Read (c : CycleState) (key : StateKey) : StateData + GoError :=
  match c !! key with
  | Some v => inl v
  | None => inr NotFound
  end.

Definition Write (c : CycleState) (key : StateKey) (val : StateData) : CycleState :=
  <[key := val]> c.

End Framework.

(* ===================================================================== *)
(** ** pkg/scheduler/framework/plugins/volumebinding                      *)
(* ===================================================================== *)
Module VolumeBinding.
Import Framework.

(** The fields of [v1.Pod] the plugin reads. *)
Record Volume := { VolumeName : string; PersistentVolumeClaim : option string }.
Record Pod := { Namespace : string; PodName : string; Volumes : list Volume }.

Record Node := { NodeName : string }.

(** [*framework.NodeInfo]; [Node()] answers nil for a nil receiver and for
    an info without node. *)
Record NodeInfo := { node : option Node }.

Definition NodeInfo_Node (ni : option NodeInfo) : option Node :=
  match ni with
  | None => None
  | Some i => node i
  end.

(** [scheduling.ConflictReason] is a string type. *)
Definition ConflictReason := string.

(** The [scheduling.SchedulerVolumeBinder] interface over a binder state
    [B]: every method is a transition of the collaborator's own state. *)
Class SchedulerVolumeBinder (B : Type) := {
  FindPodVolumes : Pod -> Node -> B -> (list ConflictReason * option GoError) * B;
  AssumePodVolumes : Pod -> string -> B -> (bool * option GoError) * B;
  BindPodVolumes : Pod -> B -> option GoError * B;
  DeletePodBindings : Pod -> B -> B
}.

(** The collaborator calls a run performs, in order. *)
Inductive BinderCall :=
| CallFind (pod : Pod) (n : Node)
| CallAssume (pod : Pod) (nodeName : string)
| CallBind (pod : Pod)
| CallDelete (pod : Pod).

(** What the plugin reports through klog and [utilruntime.HandleError]. *)
Inductive Report :=
| KlogInfo (level : nat) (msg : string)
| HandleError (msg : string).

(** What a plugin operation can touch: the cycle state it is handed, the
    binder behind [pl.binder], and the two observable logs. *)
Record World (B : Type) := mkWorld {
  cycle : CycleState;
  binder : B;
  calls : list BinderCall;
  reports : list Report
}.
Arguments mkWorld {B} _ _ _ _.
Arguments cycle {B} _.
Arguments binder {B} _.
Arguments calls {B} _.
Arguments reports {B} _.

(** A small state monad over the world. *)
Definition M (B A : Type) := World B -> A * World B.

Definition ret {B A} (a : A) : M B A := fun w => (a, w).
Definition bind {B A C} (m : M B A) (k : A -> M B C) : M B C :=
  fun w => let (a, w') := m w in k a w'.

Notation "'let*' x ':=' m 'in' k" := (bind m (fun x => k))
  (at level 10, x name, m at level 100, k at level 200).
Notation "'do' m 'then' k" := (bind m (fun _ => k))
  (at level 10, m at level 100, k at level 200).

Definition allBoundStateKey : StateKey := "volumebinding:all-bound".
Definition DefaultBindTimeoutSeconds : Z := 600.
Definition Name : string := "VolumeBinding".

Section Plugin.
Context {B : Type} `{SchedulerVolumeBinder B}.

(** Primitive effects. *)
Definition csRead (key : StateKey) : M B (StateData + GoError) :=
  fun w => (Read (cycle w) key, w).

Definition csWrite (key : StateKey) (val : StateData) : M B unit :=
  fun w => (tt, mkWorld (Write (cycle w) key val) (binder w) (calls w) (reports w)).

Definition report (r : Report) : M B unit :=
  fun w => (tt, mkWorld (cycle w) (binder w) (calls w) (reports w ++ [r])).

Definition callFind (pod : Pod) (n : Node) : M B (list ConflictReason * option GoError) :=
  fun w => let (r, b') := FindPodVolumes pod n (binder w) in
           (r, mkWorld (cycle w) b' (calls w ++ [CallFind pod n]) (reports w)).

Definition callAssume (pod : Pod) (nodeName : string) : M B (bool * option GoError) :=
  fun w => let (r, b') := AssumePodVolumes pod nodeName (binder w) in
           (r, mkWorld (cycle w) b' (calls w ++ [CallAssume pod nodeName]) (reports w)).

Definition callBind (pod : Pod) : M B (option GoError) :=
  fun w => let (r, b') := BindPodVolumes pod (binder w) in
           (r, mkWorld (cycle w) b' (calls w ++ [CallBind pod]) (reports w)).

Definition callDelete (pod : Pod) : M B unit :=
  fun w => (tt, mkWorld (cycle w) (DeletePodBindings pod (binder w))
                        (calls w ++ [CallDelete pod]) (reports w)).

(** [podHasPVCs]. *)
Fixpoint hasPVC (vols : list Volume) : bool :=
  match vols with
  | [] => false
  | vol :: rest =>
      match PersistentVolumeClaim vol with
      | Some _ => true
      | None => hasPVC rest
      end
  end.

Definition podHasPVCs (pod : Pod) : bool := hasPVC (Volumes pod).

(** The loop [for _, reason := range reasons { status.AppendReason(...) }]. *)
Fixpoint appendReasons (status : Status) (rs : list ConflictReason) : Status :=
  match rs with
  | [] => status
  | reason :: rest => appendReasons (AppendReason status reason) rest
  end.

(** [VolumeBinding.Filter]. *)
Definition Filter (pod : Pod) (nodeInfo : option NodeInfo) : M B StatusPtr :=
  match NodeInfo_Node nodeInfo with
  | None => ret (Some (NewStatus Error ["node not found"]))
  | Some n =>
      if negb (podHasPVCs pod) then ret None
      else
        let* r := callFind pod n in
        match snd r with
        | Some err => ret (Some (NewStatus Error [err]))
        | None =>
            if (0 <? Z.of_nat (length (fst r)))
            then ret (Some (appendReasons (NewStatus UnschedulableAndUnresolvable []) (fst r)))
            else ret None
        end
  end.

(** [VolumeBinding.Reserve]. *)
Definition Reserve (pod : Pod) (nodeName : string) : M B StatusPtr :=
  let* r := callAssume pod nodeName in
  match snd r with
  | Some err => ret (Some (NewStatus Error [err]))
  | None =>
      do csWrite allBoundStateKey (allBoundStateData (fst r)) then
      ret None
  end.

Definition podKey (pod : Pod) : string := Namespace pod +:+ "/" +:+ PodName pod.

(** The double-quote byte, and a pod rendered as the quoted [%v/%v]. *)
Definition dquote : string := String (ascii_of_nat 34) EmptyString.
Definition quotedPod (pod : Pod) : string := dquote +:+ podKey pod +:+ dquote.

(** [VolumeBinding.PreBind]. *)
Definition PreBind (pod : Pod) (nodeName : string) : M B StatusPtr :=
  let* state := csRead allBoundStateKey in
  match state with
  | inr err => ret (Some (NewStatus Error [err]))
  | inl (otherStateData _) =>
      ret (Some (NewStatus Error ["unable to convert state into allBoundStateData"]))
  | inl (allBoundStateData allBound) =>
      if allBound then ret None
      else
        do report (KlogInfo 5 ("Trying to bind volumes for pod " +:+ quotedPod pod)) then
        let* err := callBind pod in
        match err with
        | Some e =>
            do report (KlogInfo 1 ("Failed to bind volumes for pod " +:+ quotedPod pod +:+ ": " +:+ e)) then
            ret (Some (NewStatus Error [e]))
        | None =>
            do report (KlogInfo 5 ("Success binding volumes for pod " +:+ quotedPod pod)) then
            ret None
        end
  end.

(** [VolumeBinding.Unreserve]. *)
Definition Unreserve (pod : Pod) (nodeName : string) : M B unit :=
  callDelete pod.

(** [VolumeBinding.PostBind]. *)
Definition PostBind (pod : Pod) (nodeName : string) : M B unit :=
  callDelete pod.

(** The payload of a deletion notification ([obj interface{}]): a pod, a
    [cache.DeletedFinalStateUnknown] tombstone around another object, or a
    value of some other dynamic type. *)
Inductive Obj :=
| ObjPod (pod : Pod)
| ObjDeletedFinalStateUnknown (key : string) (inner : Obj)
| ObjOther (typeName : string).

(** The [%T] rendering of a payload. *)
Definition typeOf (o : Obj) : string :=
  match o with
  | ObjPod _ => "*v1.Pod"
  | ObjDeletedFinalStateUnknown _ _ => "cache.DeletedFinalStateUnknown"
  | ObjOther t => t
  end.

(** The [DeleteFunc] handler registered by [New]. *)
Definition DeleteFunc (obj : Obj) : M B unit :=
  match obj with
  | ObjPod pod => callDelete pod
  | ObjDeletedFinalStateUnknown _ inner =>
      match inner with
      | ObjPod pod => callDelete pod
      | _ =>
          report (HandleError ("unable to convert object " +:+ typeOf obj +:+ " to *v1.Pod"))
      end
  | _ => report (HandleError ("unable to handle object " +:+ typeOf obj))
  end.

End Plugin.

(** [Args]: the optional field is a [*int64]. *)
Record Args := { BindTimeoutSeconds : option Z }.

(** [validateArgs]. *)
Definition validateArgs (args : Args) : option GoError :=
  match BindTimeoutSeconds args with
  | None => None
  | Some bindTimeoutSeconds =>
      if bindTimeoutSeconds <=? 0
      then Some ("invalid BindTimeoutSeconds: " +:+ Strconv.Itoa bindTimeoutSeconds
                 +:+ ", must be positive integer")
      else None
  end.

(** [time.Second], in nanoseconds. *)
Definition Second : Z := 1000000000.

(** [time.Duration(s) * time.Second] on 64-bit durations. *)
Definition secondsToDuration (s : Z) : Z := Strconv.wrap64 (s * Second).

(** The choice of [bindTimeoutSeconds] made by [New]. *)
Definition effectiveBindTimeoutSeconds (args : Args) : Z :=
  match BindTimeoutSeconds args with
  | None => DefaultBindTimeoutSeconds
  | Some v => v
  end.

(** The [VolumeBinding] struct. *)
Record VolumeBindingT (B : Type) := mkVolumeBinding { pl_binder : B }.
Arguments mkVolumeBinding {B} _.
Arguments pl_binder {B} _.

(** What a successful [New] leaves behind: the plugin and the handler it
    registered with the pod informer. *)
Record Constructed (B : Type) := mkConstructed {
  plugin : VolumeBindingT B;
  podDeleteHandler : Obj -> M B unit
}.
Arguments mkConstructed {B} _ _.
Arguments plugin {B} _.
Arguments podDeleteHandler {B} _.

Section Construction.
Context {B : Type} `{SchedulerVolumeBinder B}.
(** [framework.DecodeInto] and [scheduling.NewVolumeBinder] are declared
    outside the given sources and are taken as they are: the decoder fills
    the [Args] it is handed or fails, the constructor builds the binder for
    a bind timeout (a duration in nanoseconds). *)
Context {RuntimeObject : Type}.
Variable DecodeInto : RuntimeObject -> Args -> option GoError * Args.
Variable NewVolumeBinder : Z -> B.

(** [New]. *)
Definition New (plArgs : RuntimeObject) : Constructed B + GoError :=
  let (err, args) := DecodeInto plArgs {| BindTimeoutSeconds := None |} in
  match err with
  | Some e => inr e
  | None =>
      match validateArgs args with
      | Some e => inr e
      | None =>
          let bindTimeoutSeconds := effectiveBindTimeoutSeconds args in
          let binder := NewVolumeBinder (secondsToDuration bindTimeoutSeconds) in
          inl (mkConstructed (mkVolumeBinding binder) DeleteFunc)
      end
  end.

(** [NewFromVolumeBinder]. *)
Definition NewFromVolumeBinder (binder : B) : VolumeBindingT B :=
  mkVolumeBinding binder.

End Construction.

(** A hard error outcome. *)
Definition isError (s : StatusPtr) : Prop :=
  exists msg, s = Some (NewStatus Error [msg]).

(** The call log after an entry point: as before, or one allowed call longer. *)
Definition onlyCalls (allowed : BinderCall -> Prop) (before after : list BinderCall) : Prop :=
  after = before \/ exists c, allowed c /\ after = before ++ [c].

(** The pod a deletion payload resolves to, if any. *)
Definition podOf (obj : Obj) : option Pod :=
  match obj with
  | ObjPod pod => Some pod
  | ObjDeletedFinalStateUnknown _ (ObjPod pod) => Some pod
  | _ => None
  end.

(** Modelled from the spec: the Volume Binder is an external collaborator
    known through its interface only.  This configurable double answers
    find, assume and bind from its configuration; following the binding
    record's life cycle, assume creates the pod's record and delete removes
    it, whether or not it exists. *)
Record FakeVolumeBinder := mkFake {
  AllBound : bool;
  FindReasons : list ConflictReason;
  FindErr : option GoError;
  AssumeErr : option GoError;
  BindErr : option GoError;
  BindTimeout : Z;
  records : gset string
}.

Definition fakeWith (b : FakeVolumeBinder) (r : gset string) : FakeVolumeBinder :=
  mkFake (AllBound b) (FindReasons b) (FindErr b) (AssumeErr b) (BindErr b)
         (BindTimeout b) r.

#[export] Instance fakeBinder : SchedulerVolumeBinder FakeVolumeBinder := {|
  FindPodVolumes := fun pod n b => ((FindReasons b, FindErr b), b);
  AssumePodVolumes := fun pod nodeName b =>
    ((AllBound b, AssumeErr b),
     match AssumeErr b with
     | Some _ => b
     | None => fakeWith b ({[podKey pod]} ∪ records b)
     end);
  BindPodVolumes := fun pod b => (BindErr b, b);
  DeletePodBindings := fun pod b => fakeWith b (records b ∖ {[podKey pod]})
|}.

Definition hasRecord (pod : Pod) (b : FakeVolumeBinder) : Prop :=
  podKey pod ∈ records b.

(** Sample objects: a pod with one claim, a pod without, a node, and a
    double whose find reports a conflict and whose bind times out. *)
Definition samplePod : Pod :=
  {| Namespace := "default"; PodName := "web-0";
     Volumes := [ {| VolumeName := "scratch"; PersistentVolumeClaim := None |};
                  {| VolumeName := "data"; PersistentVolumeClaim := Some "data-web-0" |} ] |}.

Definition plainPod : Pod :=
  {| Namespace := "default"; PodName := "job-1";
     Volumes := [ {| VolumeName := "scratch"; PersistentVolumeClaim := None |} ] |}.

Definition sampleNode : Node := {| NodeName := "node-1" |}.

Definition sampleFake : FakeVolumeBinder :=
  mkFake false ["node(s) had volume node affinity conflict"] None None
         (Some "timed out waiting for the condition") (600 * 1000000000) ∅.

Definition sampleWorld (cs : CycleState) : World FakeVolumeBinder :=
  mkWorld cs sampleFake [] [].

(** A decoder that finds the field as it is given, and a binder
    constructor that keeps the timeout it is handed. *)
Definition sampleDecode (o : option Z) (into : Args) : option GoError * Args :=
  (None, {| BindTimeoutSeconds := o |}).

Definition sampleNewBinder (timeout : Z) : FakeVolumeBinder :=
  mkFake true [] None None None timeout ∅.

End VolumeBinding.

(* ===================================================================== *)
(** ** Go's path/filepath and strings on a Unix target                    *)
(* ===================================================================== *)
Module Filepath.

Definition Separator : ascii := "/"%char.

(** [os.IsPathSeparator]. *)
Definition IsPathSeparator (c : ascii) : bool := Ascii.eqb c Separator.

Definition isEmpty (s : string) : bool :=
  match s with EmptyString => true | _ => false end.

(** [filepath.Split]: the directory part runs through the last separator,
    the file part is what follows it. *)
Fixpoint Split (path : string) : string * string :=
  match path with
  | EmptyString => (EmptyString, EmptyString)
  | String c rest =>
      let (dir, file) := Split rest in
      if negb (isEmpty dir) then (String c dir, file)
      else if IsPathSeparator c then (String c EmptyString, file)
      else (EmptyString, String c file)
  end.

(** [filepath.IsAbs] on Unix. *)
Definition IsAbs (path : string) : bool := String.prefix "/" path.

(** [strings.HasPrefix] and [strings.TrimPrefix]. *)
Definition HasPrefix (s pre : string) : bool := String.prefix pre s.

Definition TrimPrefix (s pre : string) : string :=
  if HasPrefix s pre
  then String.substring (String.length pre) (String.length s - String.length pre) s
  else s.

(** The elements of a path between separators. *)
Fixpoint elements (s : string) : list string :=
  match s with
  | EmptyString => [EmptyString]
  | String c rest =>
      if IsPathSeparator c then EmptyString :: elements rest
      else match elements rest with
           | h :: t => String c h :: t
           | [] => [String c EmptyString]
           end
  end.

(** One pass of [filepath.Clean] over the elements; [out] is the cleaned
    prefix, last element first. *)
Fixpoint cleanElems (rooted : bool) (elems : list string) (out : list string) : list string :=
  match elems with
  | [] => out
  | e :: rest =>
      if isEmpty e then cleanElems rooted rest out
      else if String.eqb e "." then cleanElems rooted rest out
      else if String.eqb e ".." then
        match out with
        | top :: out' =>
            if String.eqb top ".." then cleanElems rooted rest (e :: out)
            else cleanElems rooted rest out'
        | [] =>
            if rooted then cleanElems rooted rest out
            else cleanElems rooted rest (e :: out)
        end
      else cleanElems rooted rest (e :: out)
  end.

Fixpoint joinWith (sep : string) (l : list string) : string :=
  match l with
  | [] => EmptyString
  | [x] => x
  | x :: rest => x +:+ sep +:+ joinWith sep rest
  end.

(** [filepath.Clean]. *)
Definition Clean (path : string) : string :=
  if isEmpty path then "."
  else
    let rooted := IsAbs path in
    let body := joinWith "/" (rev (cleanElems rooted (elements path) [])) in
    let out := if rooted then String Separator body else body in
    if isEmpty out then "." else out.

(** [filepath.Join]. *)
Fixpoint Join (elem : list string) : string :=
  match elem with
  | [] => EmptyString
  | e :: rest =>
      if isEmpty e then Join rest
      else Clean (joinWith "/" elem)
  end.

(** [s[:len(s)-1]] and [s[len(s)-1]]. *)
Fixpoint dropLast (s : string) : string :=
  match s with
  | EmptyString => EmptyString
  | String c EmptyString => EmptyString
  | String c rest => String c (dropLast rest)
  end.

Fixpoint lastByte (s : string) : option ascii :=
  match s with
  | EmptyString => None
  | String c EmptyString => Some c
  | String c rest => lastByte rest
  end.

Definition firstByte (s : string) : option ascii :=
  match s with
  | EmptyString => None
  | String c _ => Some c
  end.

End Filepath.

(* ===================================================================== *)
(** ** nsenter: EvalSymlinksAtNewRoot                                     *)
(* ===================================================================== *)
Module Nsenter.
Import Filepath.

(** The errors the resolver returns. *)
Inductive Err :=
| errorsNew (msg : string)
| PathError (op path : string) (err : string)
| osError (msg : string).

Definition ErrNotExist : string := "file does not exist".

(** A call returns a value, returns an error, or panics at run time. *)
Inductive Result (A : Type) :=
| Ok (a : A)
| Fail (e : Err)
| Panic (msg : string).
Arguments Ok {A} _.
Arguments Fail {A} _.
Arguments Panic {A} _.

(** [os.FileInfo], restricted to the mode bits. *)
Record FileInfo := { Mode : Z }.

(** [os.ModeSymlink = 1 << 27]. *)
Definition ModeSymlink : Z := Z.shiftl 1 27.

Definition isRoot (path : string) : bool := String.eqb path "/".

Section Resolver.
(** The file system is reached through [os.Lstat] and [os.Readlink]. *)
Variable Lstat : string -> FileInfo + Err.
Variable Readlink : string -> string + Err.

(** [walkLink]; the counter behind [linksWalked] is passed in and out. *)
Definition walkLink (path oldroot newroot : string) (linksWalked : Z)
  : Result (string * bool) * Z :=
  if 255 <? linksWalked then (Fail (errorsNew "EvalSymlinks: too many links"), linksWalked)
  else
    match Lstat (Join [newroot; path]) with
    | inr err => (Fail err, linksWalked)
    | inl fi =>
        if Z.land (Mode fi) ModeSymlink =? 0 then (Ok (path, false), linksWalked)
        else
          match Readlink (Join [newroot; path]) with
          | inr err => (Fail err, linksWalked)
          | inl newpath =>
              let linksWalked := linksWalked + 1 in
              if IsAbs newpath then
                if HasPrefix newpath oldroot
                then (Ok (Clean ("/" +:+ TrimPrefix newpath oldroot), true), linksWalked)
                else (Fail (PathError "readlink" newpath ErrNotExist), linksWalked)
              else (Ok (newpath, true), linksWalked)
          end
    end.

Definition dropIsLink (r : Result (string * bool) * Z) : Result string * Z :=
  match r with
  | (Ok (newpath, _), lw) => (Ok newpath, lw)
  | (Fail e, lw) => (Fail e, lw)
  | (Panic m, lw) => (Panic m, lw)
  end.

(** [walkLinks]; [None] means the recursion budget [fuel] ran out. *)
Fixpoint walkLinks (fuel : nat) (path oldroot newroot : string) (linksWalked : Z)
  : option (Result string * Z) :=
  match fuel with
  | O => None
  | S fuel' =>
      let (dir, file) := Split path in
      if isEmpty dir then
        Some (dropIsLink (walkLink file oldroot newroot linksWalked))
      else if isEmpty file then
        match lastByte dir with
        | None => Some (Panic "index out of range", linksWalked)
        | Some c =>
            if IsPathSeparator c then
              if isRoot dir then Some (Ok dir, linksWalked)
              else walkLinks fuel' (dropLast dir) oldroot newroot linksWalked
            else Some (dropIsLink (walkLink dir oldroot newroot linksWalked))
        end
      else
        match walkLinks fuel' dir oldroot newroot linksWalked with
        | None => None
        | Some (Fail e, lw) => Some (Fail e, lw)
        | Some (Panic m, lw) => Some (Panic m, lw)
        | Some (Ok newdir, lw) =>
            match walkLink (Join [newdir; file]) oldroot newroot lw with
            | (Fail e, lw') => Some (Fail e, lw')
            | (Panic m, lw') => Some (Panic m, lw')
            | (Ok (newpath, islink), lw') =>
                if negb islink then Some (Ok newpath, lw')
                else if IsAbs newpath then Some (Ok newpath, lw')
                else
                  match firstByte newpath with
                  | None => Some (Panic "index out of range", lw')
                  | Some c =>
                      if IsPathSeparator c then Some (Ok newpath, lw')
                      else Some (Ok (Join [newdir; newpath]), lw')
                  end
            end
        end
  end.

(** The recursion of [walkLinks] is on strictly shorter paths. *)
Definition walkLinksFuel (path : string) : nat := S (String.length path).

(** The [for] loop of [walkSymlinks]; [None] means [fuel] iterations were
    not enough. *)
Fixpoint walkSymlinksLoop (fuel : nat) (path oldroot newroot : string) (linksWalked : Z)
  : option (Result string) :=
  match fuel with
  | O => None
  | S fuel' =>
      let i := linksWalked in
      match walkLinks (walkLinksFuel path) path oldroot newroot linksWalked with
      | None => None
      | Some (Fail e, _) => Some (Fail e)
      | Some (Panic m, _) => Some (Panic m)
      | Some (Ok newpath, linksWalked') =>
          if i =? linksWalked' then Some (Ok (Clean newpath))
          else walkSymlinksLoop fuel' newpath oldroot newroot linksWalked'
      end
  end.

(** The counter is checked against 255 before every increment, so at most
    257 iterations can start. *)
Definition walkSymlinksFuel : nat := 257.

(** [walkSymlinks]. *)
Definition walkSymlinks (path oldroot newroot : string) : option (Result string) :=
  if isEmpty path then Some (Ok path)
  else walkSymlinksLoop walkSymlinksFuel path oldroot newroot 0.

(** [EvalSymlinksAtNewRoot]. *)
Definition EvalSymlinksAtNewRoot (path oldroot newroot : string) : option (Result string) :=
  walkSymlinks path (Clean oldroot) (Clean newroot).

End Resolver.

(** The counter never decreases and never passes 256 once at or below it. *)
Definition advances (lw lw' : Z) : Prop := lw <= lw' <= Z.max lw 256.

(** The file system of the repository's test of [EvalSymlinksAtNewRoot],
    seen under the new root, with a pair of links pointing at each other
    added to it. *)
Definition sampleOldRoot : string := "/tmp/old".
Definition sampleNewRoot : string := "/tmp/new".

Definition sampleLinks : list (string * string) :=
  [ ("/tmp/new/foo/bar", "/tmp/old/foo/baz");
    ("/tmp/new/foo/relbar", "baz");
    ("/tmp/new/foo/twolevel", "/tmp/old/foo/bar");
    ("/tmp/new/foo/reltwolevel", "relbar");
    ("/tmp/new/dir", "/tmp/old/foo");
    ("/tmp/new/reldir", "/tmp/old/foo");
    ("/tmp/new/foo/invalid", "/tmp/old/does-not-exist");
    ("/tmp/new/etc_hosts", "/etc/hosts");
    ("/tmp/new/loop/a", "b");
    ("/tmp/new/loop/b", "a") ].

Definition sampleFiles : list string :=
  [ "/"; "/tmp"; "/tmp/new"; "/tmp/new/foo"; "/tmp/new/foo/baz"; "/tmp/new/loop" ].

Fixpoint assoc (k : string) (l : list (string * string)) : option string :=
  match l with
  | [] => None
  | (a, b) :: rest => if String.eqb a k then Some b else assoc k rest
  end.

Definition sampleLstat (path : string) : FileInfo + Err :=
  match assoc path sampleLinks with
  | Some _ => inl {| Mode := ModeSymlink |}
  | None =>
      if existsb (String.eqb path) sampleFiles then inl {| Mode := 0 |}
      else inr (PathError "lstat" path "no such file or directory")
  end.

Definition sampleReadlink (path : string) : string + Err :=
  match assoc path sampleLinks with
  | Some target => inl target
  | None => inr (PathError "readlink" path "invalid argument")
  end.

Definition sampleEval (path : string) : option (Result string) :=
  EvalSymlinksAtNewRoot sampleLstat sampleReadlink path sampleOldRoot sampleNewRoot.

End Nsenter.

(* ===================================================================== *)
(** ** encoding/json, restricted to a destination of type []int           *)
(* ===================================================================== *)
Module Json.

(** The bytes the decoder tells apart. *)
Inductive Tok :=
| TSpace
| TLBracket
| TRBracket
| TComma
| TMinus
| TDigit (d : Z)
| TLetter (c : ascii)
| TOther.

Definition classify (c : ascii) : Tok :=
  let n := nat_of_ascii c in
  if (n =? 32)%nat || (n =? 9)%nat || (n =? 10)%nat || (n =? 13)%nat then TSpace
  else if (n =? 91)%nat then TLBracket
  else if (n =? 93)%nat then TRBracket
  else if (n =? 44)%nat then TComma
  else if (n =? 45)%nat then TMinus
  else if (48 <=? n)%nat && (n <=? 57)%nat then TDigit (Z.of_nat n - 48)
  else if (97 <=? n)%nat && (n <=? 122)%nat then TLetter c
  else TOther.

(** Where the decoder stands in the input. *)
Inductive St :=
| SBegin                       (* before the top-level value *)
| SArrStart                    (* after the opening bracket *)
| SElem                        (* after a comma: an element must follow *)
| SNeg                         (* after a minus sign *)
| SZero (neg : bool)           (* after a leading zero *)
| SDigits (neg : bool) (acc : Z)   (* inside an integer literal *)
| SNull (seen : nat) (top : bool)  (* inside the literal null *)
| SAfterElem                   (* after an element *)
| SEnd.                        (* after the top-level value *)

(** [strconv.ParseInt(lit, 10, 64)] on the literal read so far: the value
    is stored when it fits the destination, otherwise decoding fails. *)
Definition storeInt (neg : bool) (acc : Z) (out : list Z) : option (list Z) :=
  let v := if neg then - acc else acc in
  if Strconv.inInt64 v then Some (v :: out) else None.

(** What may follow a complete element. *)
Definition afterValue (t : Tok) (out : list Z) : option (St * list Z) :=
  match t with
  | TSpace => Some (SAfterElem, out)
  | TComma => Some (SElem, out)
  | TRBracket => Some (SEnd, out)
  | _ => None
  end.

(** The first byte of an element. *)
Definition beginValue (c : ascii) (t : Tok) (out : list Z) : option (St * list Z) :=
  match t with
  | TMinus => Some (SNeg, out)
  | TDigit d => if d =? 0 then Some (SZero false, out) else Some (SDigits false d, out)
  | TLetter l => if Ascii.eqb l "n" then Some (SNull 1 false, out) else None
  | _ => None
  end.

(** One byte of input.  [out] holds the elements decoded so far, last one
    first.  A JSON null stored into an int leaves the element at its zero
    value; a null at top level leaves the slice nil. *)
Definition step (st : St) (out : list Z) (c : ascii) : option (St * list Z) :=
  let t := classify c in
  match st with
  | SBegin =>
      match t with
      | TSpace => Some (SBegin, out)
      | TLBracket => Some (SArrStart, out)
      | TLetter l => if Ascii.eqb l "n" then Some (SNull 1 true, out) else None
      | _ => None
      end
  | SArrStart =>
      match t with
      | TSpace => Some (SArrStart, out)
      | TRBracket => Some (SEnd, out)
      | _ => beginValue c t out
      end
  | SElem =>
      match t with
      | TSpace => Some (SElem, out)
      | _ => beginValue c t out
      end
  | SNeg =>
      match t with
      | TDigit d => if d =? 0 then Some (SZero true, out) else Some (SDigits true d, out)
      | _ => None
      end
  | SZero neg =>
      match storeInt neg 0 out with
      | Some out' => afterValue t out'
      | None => None
      end
  | SDigits neg acc =>
      match t with
      | TDigit d => Some (SDigits neg (acc * 10 + d), out)
      | _ =>
          match storeInt neg acc out with
          | Some out' => afterValue t out'
          | None => None
          end
      end
  | SNull seen top =>
      match t with
      | TLetter l =>
          match seen with
          | 1%nat => if Ascii.eqb l "u" then Some (SNull 2 top, out) else None
          | 2%nat => if Ascii.eqb l "l" then Some (SNull 3 top, out) else None
          | 3%nat =>
              if Ascii.eqb l "l"
              then Some (if top then SEnd else SAfterElem, if top then out else 0 :: out)
              else None
          | _ => None
          end
      | _ => None
      end
  | SAfterElem => afterValue t out
  | SEnd =>
      match t with
      | TSpace => Some (SEnd, out)
      | _ => None
      end
  end.

Fixpoint run (st : St) (out : list Z) (s : string) : option (St * list Z) :=
  match s with
  | EmptyString => Some (st, out)
  | String c rest =>
      match step st out c with
      | Some (st', out') => run st' out' rest
      | None => None
      end
  end.

(** [json.Unmarshal(data, &slice)] for [slice []int]: the decoded slice, or
    [None] when Unmarshal reports an error (a syntax error, a value of
    another type, or an integer outside the range of int). *)
Definition Unmarshal (data : string) : option (list Z) :=
  match run SBegin [] data with
  | Some (SEnd, out) => Some (rev out)
  | _ => None
  end.

(** A JSON array of integers, in the words of the specification: the
    decoder accepts the text without ever reading a null. *)
Fixpoint runStrict (st : St) (out : list Z) (s : string) : option (St * list Z) :=
  match s with
  | EmptyString => Some (st, out)
  | String c rest =>
      match step st out c with
      | Some (SNull _ _, _) => None
      | Some (st', out') => runStrict st' out' rest
      | None => None
      end
  end.

Definition validIntArray (data : string) : bool :=
  match runStrict SBegin [] data with
  | Some (SEnd, _) => true
  | _ => false
  end.

(** The states in which an integer literal may begin, with the sign read. *)
Inductive numberStart : St -> bool -> Prop :=
| start_array : numberStart SArrStart false
| start_elem : numberStart SElem false
| start_neg : numberStart SNeg true.

(** The state reached once the literal of [v] has been read. *)
Definition numState (v : Z) : St :=
  if v =? 0 then SZero false else SDigits (v <? 0) (Z.abs v).

(** [json.Marshal] of a non-nil [[]int]; it cannot fail. *)
Definition Marshal (l : list Z) : string + GoError :=
  inl ("[" +:+ Filepath.joinWith "," (map Strconv.Itoa l) +:+ "]").

End Json.

(* ===================================================================== *)
(** ** pkg/controller/statefulset/delete_slots.go                         *)
(* ===================================================================== *)
Module DeleteSlots.

(** [sets.Int]: a finite set of (64-bit) ints. *)
Definition IntSet := gset Z.

Definition NewInt : IntSet := ∅.

(** [sets.Int.Insert(items...)]. *)
Definition Insert (s : IntSet) (items : list Z) : IntSet :=
  foldl (fun acc item => {[item]} ∪ acc) s items.

(** [sets.Int.List]: the members in increasing order. *)
Definition List (s : IntSet) : list Z := merge_sort Z.le (elements s).

(** The parts of [apps.StatefulSet] the codec touches: a nil annotations
    map is [None]. *)
Record ObjectMeta := { MetaName : string; Annotations : option (gmap string string) }.
Record StatefulSet := { ObjMeta : ObjectMeta; Replicas : Z }.

Definition deletedSlotsAnnotation : string := "delete-slots".

(** Modelled from the spec: [metav1.SetMetaDataAnnotation] is declared
    outside the given sources; it stores the value under the key, creating
    the annotations map when it is nil. *)
Definition SetMetaDataAnnotation (obj : ObjectMeta) (ann value : string) : ObjectMeta :=
  {| MetaName := MetaName obj;
     Annotations := Some (<[ann := value]> (default ∅ (Annotations obj))) |}.

(** [getDeleteSlots]. *)
Definition getDeleteSlots (set : StatefulSet) : IntSet :=
  let deleteSlots := NewInt in
  match Annotations (ObjMeta set) with
  | None => deleteSlots
  | Some annotations =>
      match annotations !! deletedSlotsAnnotation with
      | None => deleteSlots
      | Some value =>
          match Json.Unmarshal value with
          | None => deleteSlots
          | Some slice => Insert deleteSlots slice
          end
      end
  end.

(** [setDeleteSlot]: the updated object and the returned error. *)
Definition setDeleteSlot (set : StatefulSet) (deleteSlots : IntSet)
  : StatefulSet * option GoError :=
  match Json.Marshal (List deleteSlots) with
  | inr err => (set, Some err)
  | inl b =>
      ({| ObjMeta := SetMetaDataAnnotation (ObjMeta set) deletedSlotsAnnotation b;
          Replicas := Replicas set |}, None)
  end.

(** A StatefulSet carrying the given annotation value. *)
Definition annotated (value : string) : StatefulSet :=
  {| ObjMeta := {| MetaName := "web";
                   Annotations := Some {[ deletedSlotsAnnotation := value ]} |};
     Replicas := 3 |}.

Definition bare : StatefulSet :=
  {| ObjMeta := {| MetaName := "web"; Annotations := None |}; Replicas := 3 |}.

End DeleteSlots.

(* ===================================================================== *)
(** ** nsenter: the test helpers and the test table                       *)
(* ===================================================================== *)
Module NsenterTest.
Import Filepath Nsenter.

(** [makeMountArgs]: the arguments [[-t fstype] [-o options] [source] target]. *)
Definition makeMountArgs (source target fstype : string) (options : list string)
  : list string :=
  let mountArgs := [] in
  let mountArgs :=
    if (0 <? String.length fstype)%nat then mountArgs ++ ["-t"; fstype] else mountArgs in
  let mountArgs :=
    if (0 <? length options)%nat then mountArgs ++ ["-o"; joinWith "," options]
    else mountArgs in
  let mountArgs :=
    if (0 <? String.length source)%nat then mountArgs ++ [source] else mountArgs in
  mountArgs ++ [target].

(** The table of [TestEvalSymlinksAtRoot]: the path and what is expected. *)
Definition testcases : list (string * Result string) :=
  [ ("/foo/bar", Ok "/foo/baz");
    ("/foo/twolevel", Ok "/foo/baz");
    ("/foo/relbar", Ok "/foo/baz");
    ("/foo/reltwolevel", Ok "/foo/baz");
    ("/dir/bar", Ok "/foo/baz");
    ("/dir/twolevel", Ok "/foo/baz");
    ("/dir/relbar", Ok "/foo/baz");
    ("/dir/reltwolevel", Ok "/foo/baz");
    ("/reldir/bar", Ok "/foo/baz");
    ("/reldir/twolevel", Ok "/foo/baz");
    ("/reldir/relbar", Ok "/foo/baz");
    ("/reldir/reltwolevel", Ok "/foo/baz");
    ("/foo/invalid",
     Fail (PathError "lstat" (Join [sampleNewRoot; "does-not-exist"])
                     "no such file or directory"));
    ("/etc_hosts", Fail (PathError "readlink" "/etc/hosts" ErrNotExist)) ].

(** The check the test makes of one row. *)
Definition passes (row : string * Result string) : bool :=
  match sampleEval (fst row), snd row with
  | Some (Ok got), Ok want => String.eqb got want
  | Some (Fail (PathError op path err)), Fail (PathError op' path' err') =>
      String.eqb op op' && String.eqb path path' && String.eqb err err'
  | _, _ => false
  end.

(** A path made of [n] separators. *)
Fixpoint slashes (n : nat) : string :=
  match n with
  | O => EmptyString
  | S n' => String Separator (slashes n')
  end.

End NsenterTest.

(* ===================================================================== *)
(** * Properties of the volume binding plugin                             *)
(* ===================================================================== *)
Module VolumeBindingSpec.
Import Framework VolumeBinding.

(** Unfolds the monadic plumbing of an extension point. *)
Ltac run_plugin :=
  unfold Filter, Reserve, PreBind, Unreserve, PostBind, DeleteFunc,
    bind, ret, csRead, csWrite, report, callFind, callAssume, callBind,
    callDelete, Read, Write; simpl.

Section Outcomes.
Context {B : Type} `{SchedulerVolumeBinder B}.

Lemma appendReasons_reasons (rs : list ConflictReason) (st : Status) :
  appendReasons st rs = {| code := code st; reasons := reasons st ++ rs |}.
Proof.
  revert st. induction rs as [|r rs IH]; intros st; simpl.
  - rewrite app_nil_r. by destruct st.
  - rewrite IH. simpl. by rewrite <- app_assoc.
Qed.

Lemma podHasPVCs_spec (pod : Pod) :
  podHasPVCs pod = true <->
  exists vol, In vol (Volumes pod) /\ PersistentVolumeClaim vol <> None.
Proof.
  unfold podHasPVCs. induction (Volumes pod) as [|v vs IH]; simpl.
  - split; [discriminate | intros (? & [] & _)].
  - destruct (PersistentVolumeClaim v) eqn:E.
    + split; [|done]. intros _. exists v. split; [by left | congruence].
    + rewrite IH. split.
      * intros (vol & Hin & Hc). exists vol. split; [by right | done].
      * intros (vol & [->|Hin] & Hc); [congruence |]. by exists vol.
Qed.

(** C1. PreBind answers a hard error when the plugin's key is missing from
    the cycle state or holds a value of another shape; with the flag true
    it succeeds without any collaborator call; with the flag false it calls
    bind exactly once, succeeding when bind succeeds and answering a hard
    error that carries bind's message when bind fails. *)
Theorem PreBind_outcome (pod : Pod) (nodeName : string) (w : World B) :
  (cycle w !! allBoundStateKey = None ->
     isError (fst (PreBind pod nodeName w)) /\ snd (PreBind pod nodeName w) = w)
  /\ (forall t, cycle w !! allBoundStateKey = Some (otherStateData t) ->
     isError (fst (PreBind pod nodeName w)) /\ snd (PreBind pod nodeName w) = w)
  /\ (cycle w !! allBoundStateKey = Some (allBoundStateData true) ->
     PreBind pod nodeName w = (None, w))
  /\ (cycle w !! allBoundStateKey = Some (allBoundStateData false) ->
     forall err b', BindPodVolumes pod (binder w) = (err, b') ->
       fst (PreBind pod nodeName w)
         = match err with
           | None => None
           | Some e => Some (NewStatus Error [e])
           end
       /\ calls (snd (PreBind pod nodeName w)) = calls w ++ [CallBind pod]
       /\ binder (snd (PreBind pod nodeName w)) = b'
       /\ cycle (snd (PreBind pod nodeName w)) = cycle w).
Proof.
  split; [|split; [|split]].
  - intros Hk. run_plugin. rewrite Hk. simpl. split; [by eexists | done].
  - intros t Hk. run_plugin. rewrite Hk. simpl. split; [by eexists | done].
  - intros Hk. run_plugin. by rewrite Hk.
  - intros Hk err b' Hb. run_plugin. rewrite Hk. simpl. rewrite Hb.
    by destruct err.
Qed.

(** C2. When assume fails, Reserve answers a hard error carrying the
    message and leaves the cycle state as it was; when assume succeeds,
    Reserve stores the returned flag under the plugin's key and succeeds. *)
Theorem Reserve_outcome (pod : Pod) (nodeName : string) (w : World B)
    (allBound : bool) (err : option GoError) (b' : B) :
  AssumePodVolumes pod nodeName (binder w) = ((allBound, err), b') ->
  match err with
  | Some e =>
      Reserve pod nodeName w
        = (Some (NewStatus Error [e]),
           mkWorld (cycle w) b' (calls w ++ [CallAssume pod nodeName]) (reports w))
  | None =>
      Reserve pod nodeName w
        = (None,
           mkWorld (<[allBoundStateKey := allBoundStateData allBound]> (cycle w))
                   b' (calls w ++ [CallAssume pod nodeName]) (reports w))
      /\ Read (cycle (snd (Reserve pod nodeName w))) allBoundStateKey
           = inl (allBoundStateData allBound)
  end.
Proof.
  intros Ha. run_plugin. rewrite Ha. simpl. destruct err; simpl; [done|].
  split; [done|]. unfold CycleState, StateKey in *. by rewrite lookup_insert_eq.
Qed.

(** C3. For a pod with a volume claim and a present node, Filter calls find
    once and its outcome follows the result: an error gives a hard error
    with the message, otherwise a non-empty list of reasons gives an
    UnschedulableAndUnresolvable outcome with exactly those reasons, and an
    empty list gives success. *)
Theorem Filter_outcome (pod : Pod) (ni : NodeInfo) (n : Node) (w : World B)
    (rs : list ConflictReason) (err : option GoError) (b' : B) :
  podHasPVCs pod = true ->
  node ni = Some n ->
  FindPodVolumes pod n (binder w) = ((rs, err), b') ->
  Filter pod (Some ni) w
    = (match err with
       | Some e => Some (NewStatus Error [e])
       | None =>
           match rs with
           | [] => None
           | _ :: _ => Some {| code := UnschedulableAndUnresolvable; reasons := rs |}
           end
       end,
       mkWorld (cycle w) b' (calls w ++ [CallFind pod n]) (reports w)).
Proof.
  intros Hp Hn Hf. run_plugin. rewrite Hn, Hp. simpl. rewrite Hf. simpl.
  destruct err; [done|]. destruct rs as [|r rs]; [done|].
  simpl. by rewrite appendReasons_reasons.
Qed.

(** C4. For a pod none of whose volumes has a claim source and a present
    node, Filter succeeds at once: no collaborator call is made and the
    cycle state, like everything else, is left untouched. *)
Theorem Filter_no_claims (pod : Pod) (ni : NodeInfo) (n : Node) (w : World B) :
  (forall vol, In vol (Volumes pod) -> PersistentVolumeClaim vol = None) ->
  node ni = Some n ->
  Filter pod (Some ni) w = (None, w)
  /\ IsSuccess (fst (Filter pod (Some ni) w)) = true
  /\ calls (snd (Filter pod (Some ni) w)) = calls w
  /\ cycle (snd (Filter pod (Some ni) w)) = cycle w.
Proof.
  intros Hv Hn.
  assert (Hp : podHasPVCs pod = false).
  { destruct (podHasPVCs pod) eqn:E; [|done].
    apply podHasPVCs_spec in E as (vol & Hin & Hc). by rewrite (Hv vol Hin) in Hc. }
  assert (Hf : Filter pod (Some ni) w = (None, w)).
  { run_plugin. by rewrite Hn, Hp. }
  by rewrite Hf.
Qed.

(** C5. When the node reference is absent, Filter answers a hard error
    whatever the pod's volumes are: never success and never an
    unschedulable outcome; nothing else happens. *)
Theorem Filter_nil_node (pod : Pod) (nodeInfo : option NodeInfo) (w : World B) :
  NodeInfo_Node nodeInfo = None ->
  Filter pod nodeInfo w = (Some (NewStatus Error ["node not found"]), w)
  /\ isError (fst (Filter pod nodeInfo w))
  /\ (forall st, fst (Filter pod nodeInfo w) = Some st ->
        code st <> Unschedulable /\ code st <> UnschedulableAndUnresolvable)
  /\ IsSuccess (fst (Filter pod nodeInfo w)) = false.
Proof.
  intros Hn.
  assert (Hf : Filter pod nodeInfo w = (Some (NewStatus Error ["node not found"]), w)).
  { run_plugin. by rewrite Hn. }
  rewrite Hf. simpl. split; [done|]. split; [by eexists|]. split; [|done].
  intros st' [= <-]. by split.
Qed.

(** C7. Unreserve and PostBind are the same operation: one call of the
    collaborator's delete for the pod and nothing else; the cycle state and
    the reports are untouched and no status is returned.  With a
    collaborator whose delete leaves a state without record for the pod as
    it is, either call is a no-op on a pod that has no record. *)
Theorem Unreserve_PostBind_delete_only (absent : Pod -> B -> Prop) :
  (forall p b, absent p b -> DeletePodBindings p b = b) ->
  (@Unreserve B _ = @PostBind B _)
  /\ forall (pod : Pod) (nodeName : string) (w : World B),
       Unreserve pod nodeName w
         = (tt, mkWorld (cycle w) (DeletePodBindings pod (binder w))
                        (calls w ++ [CallDelete pod]) (reports w))
       /\ PostBind pod nodeName w = Unreserve pod nodeName w
       /\ (absent pod (binder w) ->
             snd (Unreserve pod nodeName w)
               = mkWorld (cycle w) (binder w) (calls w ++ [CallDelete pod]) (reports w)).
Proof.
  intros Hdel. split; [reflexivity|].
  intros pod nodeName w. split; [reflexivity|]. split; [reflexivity|].
  intros Ha. run_plugin. by rewrite (Hdel _ _ Ha).
Qed.

(** C8. The deletion handler, given a pod or a tombstone around a pod,
    performs the delete call of Unreserve and PostBind for that pod; given
    any other payload it reports the anomaly once and returns, with no
    collaborator call and no other change. *)
Theorem DeleteFunc_outcome (obj : Obj) (w : World B) :
  (forall pod, podOf obj = Some pod ->
     forall nodeName,
       DeleteFunc obj w = Unreserve pod nodeName w
       /\ DeleteFunc obj w = PostBind pod nodeName w
       /\ calls (snd (DeleteFunc obj w)) = calls w ++ [CallDelete pod])
  /\ (podOf obj = None ->
       exists msg,
         DeleteFunc obj w
           = (tt, mkWorld (cycle w) (binder w) (calls w) (reports w ++ [HandleError msg]))).
Proof.
  split.
  - intros pod Hp nodeName.
    destruct obj as [p| k [p| |] |]; simpl in Hp; try discriminate;
      injection Hp as ->; by run_plugin.
  - intros Hp.
    destruct obj as [p| k [p| |] |]; simpl in Hp; try discriminate;
      run_plugin; by eexists.
Qed.

End Outcomes.

Section ConstructionSpec.
Context {B : Type} `{SchedulerVolumeBinder B}.
Context {RuntimeObject : Type}.
Variable DecodeInto : RuntimeObject -> Args -> option GoError * Args.
Variable NewVolumeBinder : Z -> B.

Lemma validateArgs_fails_iff (args : Args) :
  validateArgs args <> None <->
  exists v, BindTimeoutSeconds args = Some v /\ v <= 0.
Proof.
  unfold validateArgs. destruct (BindTimeoutSeconds args) as [v|].
  - destruct (Z.leb_spec v 0).
    + split; [|done]. intros _. by exists v.
    + split; [done|]. intros (v' & [= <-] & ?). lia.
  - split; [done|]. by intros (v & ? & _).
Qed.

(** The conversion to [time.Duration] is exact for every timeout of up to
    9223372036 seconds. *)
Lemma secondsToDuration_exact (v : Z) :
  0 <= v <= 9223372036 -> secondsToDuration v = v * Second.
Proof.
  intros Hv. unfold secondsToDuration, Strconv.wrap64, Second.
  rewrite Z.mod_small; lia.
Qed.

(** An error of the decoder is returned as it is. *)
Lemma New_decode_error (plArgs : RuntimeObject) (e : GoError) (args : Args) :
  DecodeInto plArgs {| BindTimeoutSeconds := None |} = (Some e, args) ->
  New DecodeInto NewVolumeBinder plArgs = inr e.
Proof. intros Hd. unfold New. by rewrite Hd. Qed.

(** C6. For arguments that decode, construction fails exactly when the bind
    timeout is supplied with a value of zero or less; when the field is
    omitted the binder is built with a timeout of 600 seconds; a supplied
    positive value is the timeout in seconds as it stands, and the duration
    handed to the binder is that many seconds for every value up to
    9223372036. *)
Theorem New_validates_bind_timeout (plArgs : RuntimeObject) (args : Args) :
  DecodeInto plArgs {| BindTimeoutSeconds := None |} = (None, args) ->
  (validateArgs args <> None <-> exists v, BindTimeoutSeconds args = Some v /\ v <= 0)
  /\ ((exists e, New DecodeInto NewVolumeBinder plArgs = inr e)
      <-> exists v, BindTimeoutSeconds args = Some v /\ v <= 0)
  /\ (BindTimeoutSeconds args = None ->
        effectiveBindTimeoutSeconds args = 600
        /\ New DecodeInto NewVolumeBinder plArgs
             = inl (mkConstructed (mkVolumeBinding (NewVolumeBinder (600 * Second)))
                                  DeleteFunc))
  /\ (forall v, BindTimeoutSeconds args = Some v -> 0 < v ->
        effectiveBindTimeoutSeconds args = v
        /\ New DecodeInto NewVolumeBinder plArgs
             = inl (mkConstructed
                      (mkVolumeBinding (NewVolumeBinder (secondsToDuration v)))
                      DeleteFunc)
        /\ (v <= 9223372036 -> secondsToDuration v = v * Second)).
Proof.
  intros Hd. split; [apply validateArgs_fails_iff|].
  unfold New. rewrite Hd. unfold validateArgs, effectiveBindTimeoutSeconds.
  destruct (BindTimeoutSeconds args) as [v|]; simpl.
  - destruct (Z.leb_spec v 0).
    + split; [|split; [done|]].
      * split; [|by eexists]. intros _. by exists v.
      * intros v' [= <-] ?. lia.
    + split; [|split; [done|]].
      * split; [by intros [? ?]|]. intros (v' & [= <-] & ?). lia.
      * intros v' [= <-] _. split; [done|]. split; [done|].
        intros Hv. apply secondsToDuration_exact. lia.
  - split; [|split; [done|]].
    + split; [by intros [? ?]|]. by intros (v & ? & _).
    + done.
Qed.

End ConstructionSpec.

(** ** Worked instances on the sample objects *)

Lemma fake_delete_absent (p : Pod) (b : FakeVolumeBinder) :
  ~ hasRecord p b -> DeletePodBindings p b = b.
Proof.
  unfold hasRecord. intros Hn. destruct b as [a fr fe ae be bt r]. simpl in *.
  unfold fakeWith. simpl. f_equal. apply difference_disjoint_L.
  by apply disjoint_singleton_r.
Qed.

Lemma PreBind_outcome_witness :
  fst (PreBind samplePod "node-1"
         (sampleWorld {[ allBoundStateKey := allBoundStateData false ]}))
    = Some (NewStatus Error ["timed out waiting for the condition"])
  /\ calls (snd (PreBind samplePod "node-1"
                   (sampleWorld {[ allBoundStateKey := allBoundStateData false ]})))
       = [CallBind samplePod].
Proof.
  destruct (PreBind_outcome samplePod "node-1"
              (sampleWorld {[ allBoundStateKey := allBoundStateData false ]}))
    as (_ & _ & _ & Hf).
  destruct (Hf eq_refl (Some "timed out waiting for the condition") sampleFake eq_refl)
    as (H1 & H2 & _).
  split; [exact H1 | exact H2].
Defined.

Lemma Reserve_outcome_witness :
  Reserve samplePod "node-1" (sampleWorld ∅)
    = (None,
       mkWorld {[ allBoundStateKey := allBoundStateData false ]}
               (fakeWith sampleFake {[ "default/web-0" ]})
               [CallAssume samplePod "node-1"] [])
  /\ Read (cycle (snd (Reserve samplePod "node-1" (sampleWorld ∅)))) allBoundStateKey
       = inl (allBoundStateData false).
Proof.
  exact (Reserve_outcome samplePod "node-1" (sampleWorld ∅) false None
           (fakeWith sampleFake {[ "default/web-0" ]}) eq_refl).
Defined.

Lemma Filter_outcome_witness :
  Filter samplePod (Some {| node := Some sampleNode |}) (sampleWorld ∅)
    = (Some {| code := UnschedulableAndUnresolvable;
               reasons := ["node(s) had volume node affinity conflict"] |},
       mkWorld ∅ sampleFake [CallFind samplePod sampleNode] []).
Proof.
  exact (Filter_outcome samplePod {| node := Some sampleNode |} sampleNode
           (sampleWorld ∅) ["node(s) had volume node affinity conflict"] None
           sampleFake eq_refl eq_refl eq_refl).
Defined.

Lemma Filter_no_claims_witness :
  Filter plainPod (Some {| node := Some sampleNode |}) (sampleWorld ∅)
    = (None, sampleWorld ∅).
Proof.
  refine (proj1 (Filter_no_claims plainPod {| node := Some sampleNode |} sampleNode
                   (sampleWorld ∅) _ eq_refl)).
  intros vol [<- | []]. reflexivity.
Defined.

Lemma Filter_nil_node_witness :
  Filter samplePod None (sampleWorld ∅)
    = (Some (NewStatus Error ["node not found"]), sampleWorld ∅).
Proof.
  exact (proj1 (Filter_nil_node samplePod None (sampleWorld ∅) eq_refl)).
Defined.

Lemma New_validates_bind_timeout_witness :
  New sampleDecode sampleNewBinder (Some 30)
    = inl (mkConstructed (mkVolumeBinding (sampleNewBinder 30000000000)) DeleteFunc).
Proof.
  destruct (New_validates_bind_timeout sampleDecode sampleNewBinder (Some 30)
              {| BindTimeoutSeconds := Some 30 |} eq_refl) as (_ & _ & _ & Hv).
  exact (proj1 (proj2 (Hv 30 eq_refl eq_refl))).
Defined.

Lemma Unreserve_PostBind_delete_only_witness :
  snd (Unreserve samplePod "node-1" (sampleWorld ∅))
    = mkWorld ∅ sampleFake [CallDelete samplePod] [].
Proof.
  refine (proj2 (proj2 (proj2 (Unreserve_PostBind_delete_only
            (fun p b => ~ hasRecord p b) fake_delete_absent)
            samplePod "node-1" (sampleWorld ∅))) _).
  unfold hasRecord. simpl. set_solver.
Defined.

Lemma DeleteFunc_outcome_witness :
  DeleteFunc (ObjDeletedFinalStateUnknown "default/web-0" (ObjPod samplePod)) (sampleWorld ∅)
    = Unreserve samplePod "node-1" (sampleWorld ∅).
Proof.
  exact (proj1 (proj1 (DeleteFunc_outcome
           (ObjDeletedFinalStateUnknown "default/web-0" (ObjPod samplePod))
           (sampleWorld ∅)) samplePod eq_refl "node-1")).
Defined.

End VolumeBindingSpec.

(* ===================================================================== *)
(** * Properties of the symlink resolver                                  *)
(* ===================================================================== *)
Module NsenterSpec.
Import Filepath Nsenter.

Lemma Split_length (path dir file : string) :
  Split path = (dir, file) ->
  String.length path = (String.length dir + String.length file)%nat.
Proof.
  revert dir file. induction path as [|c rest IH]; intros dir file; simpl.
  - by intros [= <- <-].
  - destruct (Split rest) as [d f]. specialize (IH d f eq_refl).
    destruct (isEmpty d) eqn:Ed; simpl.
    + destruct d; [|discriminate]. simpl in IH.
      destruct (IsPathSeparator c); intros [= <- <-]; simpl; lia.
    + intros [= <- <-]. simpl. lia.
Qed.

Lemma lastByte_dropLast (s : string) (c : ascii) :
  lastByte s = Some c -> String.length s = S (String.length (dropLast s)).
Proof.
  induction s as [|a s IH]; [discriminate|].
  destruct s as [|b s]; [done|].
  intros Hl. change (lastByte (String b s) = Some c) in Hl.
  change (String.length (String a (String b s))
          = S (S (String.length (dropLast (String b s))))).
  simpl String.length at 1. by rewrite <- (IH Hl).
Qed.

Lemma isEmpty_false_length (s : string) :
  isEmpty s = false -> (0 < String.length s)%nat.
Proof. destruct s; [discriminate|]. simpl. lia. Qed.

Lemma advances_refl (lw : Z) : advances lw lw.
Proof. unfold advances. lia. Qed.

Lemma advances_trans (a b c : Z) : advances a b -> advances b c -> advances a c.
Proof. unfold advances. lia. Qed.

Section ResolverSpec.
Variable Lstat : string -> FileInfo + Err.
Variable Readlink : string -> string + Err.

Local Abbreviation walkLink := (walkLink Lstat Readlink).
Local Abbreviation walkLinks := (walkLinks Lstat Readlink).
Local Abbreviation walkSymlinksLoop := (walkSymlinksLoop Lstat Readlink).

(** Closes a goal asking for the returned value and the counter bound. *)
Ltac returned :=
  do 2 eexists; split; [reflexivity | eauto using advances_refl, advances_trans].

Lemma walkLink_too_many_links (path oldroot newroot : string) (lw : Z) :
  255 < lw ->
  walkLink path oldroot newroot lw
    = (Fail (errorsNew "EvalSymlinks: too many links"), lw).
Proof.
  intros Hlw. unfold Nsenter.walkLink. by destruct (Z.ltb_spec 255 lw); [|lia].
Qed.

Lemma walkLink_counter (path oldroot newroot : string) (lw lw' : Z) r :
  walkLink path oldroot newroot lw = (r, lw') ->
  lw' = lw \/ (lw' = lw + 1 /\ lw <= 255).
Proof.
  unfold Nsenter.walkLink. destruct (Z.ltb_spec 255 lw).
  - intros [= <- <-]. by left.
  - destruct (Lstat _) as [fi|e]; [|intros [= <- <-]; by left].
    destruct (_ =? 0); [intros [= <- <-]; by left|].
    destruct (Readlink _) as [np|e]; [|intros [= <- <-]; by left].
    destruct (IsAbs np); [destruct (HasPrefix np oldroot)|];
      intros [= <- <-]; right; lia.
Qed.

Lemma walkLink_advances (path oldroot newroot : string) (lw lw' : Z) r :
  walkLink path oldroot newroot lw = (r, lw') -> advances lw lw'.
Proof. intros Hw. apply walkLink_counter in Hw. unfold advances. lia. Qed.

(** [walkLinks] returns whenever its budget exceeds the length of the path. *)
Lemma walkLinks_total (fuel : nat) :
  forall (path oldroot newroot : string) (lw : Z),
    (String.length path < fuel)%nat ->
    exists r lw',
      walkLinks fuel path oldroot newroot lw = Some (r, lw') /\ advances lw lw'.
Proof.
  induction fuel as [|fuel IH]; intros path oldroot newroot lw Hlen; [lia|].
  cbn [Nsenter.walkLinks]. destruct (Split path) as [dir file] eqn:Hs.
  apply Split_length in Hs.
  destruct (isEmpty dir) eqn:Ed.
  { destruct (walkLink file oldroot newroot lw) as [r lw'] eqn:Hw.
    apply walkLink_advances in Hw.
    destruct r as [[np il]| |]; simpl; returned. }
  destruct (isEmpty file) eqn:Ef.
  { destruct (lastByte dir) as [c|] eqn:Hl; [|returned].
    destruct (IsPathSeparator c).
    - destruct (isRoot dir); [returned|].
      apply IH. apply lastByte_dropLast in Hl. lia.
    - destruct (walkLink dir oldroot newroot lw) as [r lw'] eqn:Hw.
      apply walkLink_advances in Hw.
      destruct r as [[np il]| |]; simpl; returned. }
  apply isEmpty_false_length in Ef.
  destruct (IH dir oldroot newroot lw ltac:(lia)) as (r & lw1 & -> & Hadv).
  destruct r as [newdir| |]; [|returned|returned].
  destruct (walkLink (Join [newdir; file]) oldroot newroot lw1) as [r lw2] eqn:Hw.
  apply walkLink_advances in Hw.
  pose proof (advances_trans _ _ _ Hadv Hw).
  destruct r as [[np il]| |]; [|returned|returned].
  destruct (negb il); [returned|].
  destruct (IsAbs np); [returned|].
  destruct (firstByte np) as [c|]; [|returned].
  destruct (IsPathSeparator c); returned.
Qed.

(** A larger budget does not change what [walkLinks] returns. *)
Lemma walkLinks_fuel_mono (fuel : nat) :
  forall (fuel' : nat) (path oldroot newroot : string) (lw : Z) x,
    walkLinks fuel path oldroot newroot lw = Some x ->
    (fuel <= fuel')%nat ->
    walkLinks fuel' path oldroot newroot lw = Some x.
Proof.
  induction fuel as [|fuel IH]; intros fuel' path oldroot newroot lw x; [discriminate|].
  destruct fuel' as [|fuel']; [lia|]. intros Hw Hle.
  cbn [Nsenter.walkLinks] in *.
  destruct (Split path) as [dir file].
  destruct (isEmpty dir); [done|].
  destruct (isEmpty file).
  { destruct (lastByte dir) as [c|]; [|done].
    destruct (IsPathSeparator c); [|done].
    destruct (isRoot dir); [done|]. apply IH; [done|lia]. }
  destruct (walkLinks fuel dir oldroot newroot lw) as [y|] eqn:Hd; [|discriminate].
  by rewrite (IH fuel' _ _ _ _ _ Hd ltac:(lia)).
Qed.

(** The loop returns as soon as its budget covers the distance of the
    counter to 257. *)
Lemma walkSymlinksLoop_total (fuel : nat) :
  forall (path oldroot newroot : string) (lw : Z),
    0 <= lw <= 256 ->
    257 - lw <= Z.of_nat fuel ->
    exists r, walkSymlinksLoop fuel path oldroot newroot lw = Some r.
Proof.
  induction fuel as [|fuel IH]; intros path oldroot newroot lw Hlw Hf; [lia|].
  cbn [Nsenter.walkSymlinksLoop].
  destruct (walkLinks_total (walkLinksFuel path) path oldroot newroot lw)
    as (r & lw' & -> & Hadv); [unfold walkLinksFuel; lia|].
  destruct r as [newpath| |]; [|eauto|eauto].
  destruct (Z.eqb_spec lw lw'); [eauto|].
  unfold advances in Hadv. apply IH; lia.
Qed.

Lemma walkSymlinksLoop_fuel_mono (fuel : nat) :
  forall (fuel' : nat) (path oldroot newroot : string) (lw : Z) r,
    walkSymlinksLoop fuel path oldroot newroot lw = Some r ->
    (fuel <= fuel')%nat ->
    walkSymlinksLoop fuel' path oldroot newroot lw = Some r.
Proof.
  induction fuel as [|fuel IH]; intros fuel' path oldroot newroot lw r; [discriminate|].
  destruct fuel' as [|fuel']; [lia|]. intros Hw Hle.
  cbn [Nsenter.walkSymlinksLoop] in *.
  destruct (walkLinks _ path oldroot newroot lw) as [[[newpath| |] lw']|]; try done.
  destruct (lw =? lw'); [done|]. apply IH; [done|lia].
Qed.

(** C9. [EvalSymlinksAtNewRoot] returns for every path, every pair of roots
    and every file system, cyclic or not.  One pass of the loop always
    returns; it leaves the counter where it was, in which case a successful
    pass makes the loop return the cleaned path, or it strictly increases
    it.  A single link resolution fails with the too-many-links error once
    the counter is above 255.  A budget beyond the one built into the model
    changes nothing. *)
Theorem EvalSymlinksAtNewRoot_terminates (path oldroot newroot : string) :
  (exists r, EvalSymlinksAtNewRoot Lstat Readlink path oldroot newroot = Some r)
  /\ (forall p o n lw,
        exists r lw',
          walkLinks (walkLinksFuel p) p o n lw = Some (r, lw')
          /\ (lw' = lw \/ lw < lw')
          /\ (lw' = lw -> forall newpath fuel, r = Ok newpath ->
                walkSymlinksLoop (S fuel) p o n lw = Some (Ok (Clean newpath))))
  /\ (forall p o n lw,
        255 < lw ->
        walkLink p o n lw = (Fail (errorsNew "EvalSymlinks: too many links"), lw))
  /\ (forall fuel r,
        (walkSymlinksFuel <= fuel)%nat ->
        walkSymlinksLoop walkSymlinksFuel path (Clean oldroot) (Clean newroot) 0 = Some r ->
        walkSymlinksLoop fuel path (Clean oldroot) (Clean newroot) 0 = Some r).
Proof.
  split; [|split; [|split]].
  - unfold EvalSymlinksAtNewRoot, walkSymlinks.
    destruct (isEmpty path); [eauto|].
    apply walkSymlinksLoop_total; unfold walkSymlinksFuel; lia.
  - intros p o n lw.
    destruct (walkLinks_total (walkLinksFuel p) p o n lw)
      as (r & lw' & Hw & Hadv); [unfold walkLinksFuel; lia|].
    exists r, lw'. split; [done|]. split; [unfold advances in Hadv; lia|].
    intros -> newpath fuel ->. cbn [Nsenter.walkSymlinksLoop].
    rewrite Hw. by rewrite Z.eqb_refl.
  - intros p o n lw. apply walkLink_too_many_links.
  - intros fuel r Hle Hw. by apply (walkSymlinksLoop_fuel_mono _ _ _ _ _ _ _ Hw).
Qed.

End ResolverSpec.

(** The cases of the repository's test, and a cycle of two links. *)
Example eval_one_level_link : sampleEval "/foo/bar" = Some (Ok "/foo/baz").
Proof. vm_compute. reflexivity. Qed.

Example eval_two_level_relative_link_under_link_dir :
  sampleEval "/dir/reltwolevel" = Some (Ok "/foo/baz").
Proof. vm_compute. reflexivity. Qed.

Example eval_link_to_path_in_caller_fs :
  sampleEval "/etc_hosts" = Some (Fail (PathError "readlink" "/etc/hosts" ErrNotExist)).
Proof. vm_compute. reflexivity. Qed.

Example eval_cycle :
  sampleEval "/loop/a" = Some (Fail (errorsNew "EvalSymlinks: too many links")).
Proof. vm_compute. reflexivity. Qed.

End NsenterSpec.

(* ===================================================================== *)
(** * Properties of the decimal rendering and of the JSON codec           *)
(* ===================================================================== *)
Module JsonSpec.
Import Strconv Json.

Lemma classify_digitChar (d : Z) :
  0 <= d <= 9 -> classify (digitChar d) = TDigit d.
Proof.
  intros Hd.
  assert (Hc : d = 0 \/ d = 1 \/ d = 2 \/ d = 3 \/ d = 4 \/ d = 5 \/ d = 6
               \/ d = 7 \/ d = 8 \/ d = 9) by lia.
  repeat (destruct Hc as [-> | Hc]; [reflexivity|]). by subst.
Qed.

Lemma append_cons (x : ascii) (a b : string) :
  String x a +:+ b = String x (a +:+ b).
Proof. reflexivity. Qed.

Lemma append_assoc (a b c : string) : (a +:+ b) +:+ c = a +:+ (b +:+ c).
Proof.
  induction a as [|x a IH]; [reflexivity|]. by rewrite !append_cons, IH.
Qed.

Lemma formatBits_append (fuel : nat) :
  forall (n : Z) (acc rest : string),
    formatBits fuel n acc +:+ rest = formatBits fuel n (acc +:+ rest).
Proof.
  induction fuel as [|fuel IH]; intros n acc rest; simpl; [done|].
  destruct (n <? 10); [reflexivity|]. by rewrite IH.
Qed.

Lemma run_append (s1 s2 : string) :
  forall (st : St) (out : list Z),
    run st out (s1 +:+ s2)
      = match run st out s1 with
        | Some (st', out') => run st' out' s2
        | None => None
        end.
Proof.
  induction s1 as [|c s1 IH]; intros st out; [reflexivity|].
  rewrite append_cons. cbn [run].
  destruct (step st out c) as [[st' out']|]; [apply IH | done].
Qed.

Lemma step_first_digit (st : St) (neg : bool) (out : list Z) (d : Z) :
  numberStart st neg -> 0 < d <= 9 ->
  step st out (digitChar d) = Some (SDigits neg d, out).
Proof.
  intros Hs Hd. unfold step. rewrite classify_digitChar by lia.
  destruct Hs; simpl; by destruct (Z.eqb_spec d 0); [lia|].
Qed.

Lemma step_next_digit (neg : bool) (acc : Z) (out : list Z) (d : Z) :
  0 <= d <= 9 ->
  step (SDigits neg acc) out (digitChar d) = Some (SDigits neg (acc * 10 + d), out).
Proof. intros Hd. unfold step. by rewrite classify_digitChar. Qed.

Lemma log2_div10 (n : Z) : 10 <= n -> Z.log2 (n / 10) < Z.log2 n.
Proof.
  intros Hn.
  destruct (Z.log2_spec n ltac:(lia)) as [_ Hhi].
  rewrite Z.pow_succ_r in Hhi by apply Z.log2_nonneg.
  apply Z.log2_lt_pow2; [apply Z.div_str_pos; lia|].
  pose proof (Z.mul_div_le n 10 ltac:(lia)). lia.
Qed.

(** Reading back the digits that [formatBits] writes. *)
Lemma run_formatBits (fuel : nat) :
  forall (n : Z) (suffix : string) (st : St) (neg : bool) (out : list Z),
    numberStart st neg -> 0 < n -> Z.log2 n < Z.of_nat fuel ->
    run st out (formatBits fuel n suffix) = run (SDigits neg n) out suffix.
Proof.
  induction fuel as [|fuel IH]; intros n suffix st neg out Hs Hn Hf.
  { pose proof (Z.log2_nonneg n). lia. }
  simpl formatBits. destruct (Z.ltb_spec n 10).
  - rewrite Z.mod_small by lia. cbn [run].
    by rewrite (step_first_digit st neg out n Hs) by lia.
  - rewrite (IH (n / 10) _ st neg out Hs).
    + cbn [run].
      rewrite step_next_digit by (pose proof (Z.mod_pos_bound n 10); lia).
      do 2 f_equal. pose proof (Z.div_mod n 10 ltac:(lia)). lia.
    + apply Z.div_str_pos. lia.
    + pose proof (log2_div10 n ltac:(lia)). lia.
Qed.

Lemma run_Itoa (v : Z) (st : St) (out : list Z) (rest : string) :
  st = SArrStart \/ st = SElem ->
  run st out (Itoa v +:+ rest) = run (numState v) out rest.
Proof.
  intros Hst. unfold Itoa, numState, formatUint.
  destruct (Z.ltb_spec v 0) as [Hneg|Hpos].
  - destruct (Z.eqb_spec v 0); [lia|].
    assert (Hminus : step st out "-" = Some (SNeg, out)) by (by destruct Hst as [-> | ->]).
    rewrite append_cons. cbn [run]. rewrite Hminus, formatBits_append.
    rewrite (run_formatBits _ _ _ SNeg true); [|constructor|lia|].
    + by replace (Z.abs v) with (- v) by lia.
    + pose proof (Z.log2_nonneg (- v)). lia.
  - destruct (Z.eqb_spec v 0) as [->|Hnz].
    + by destruct Hst as [-> | ->].
    + rewrite formatBits_append.
      rewrite (run_formatBits _ _ _ st false);
        [|destruct Hst as [-> | ->]; constructor|lia|].
      * by replace (Z.abs v) with v by lia.
      * pose proof (Z.log2_nonneg v). lia.
Qed.

Lemma step_number_end (v : Z) (out : list Z) :
  inInt64 v = true ->
  step (numState v) out "," = Some (SElem, v :: out)
  /\ step (numState v) out "]" = Some (SEnd, v :: out).
Proof.
  intros Hr. unfold numState.
  destruct (Z.eqb_spec v 0) as [->|Hnz]; [done|].
  unfold step, storeInt. simpl.
  replace (if v <? 0 then - Z.abs v else Z.abs v) with v
    by (destruct (Z.ltb_spec v 0); lia).
  by rewrite Hr.
Qed.

(** Reading back a non-empty list of elements up to the closing bracket. *)
Lemma run_elements (l : list Z) :
  forall (st : St) (out : list Z),
    st = SArrStart \/ st = SElem ->
    l <> [] ->
    Forall (fun v => inInt64 v = true) l ->
    run st out (Filepath.joinWith "," (map Itoa l) +:+ "]") = Some (SEnd, rev l ++ out).
Proof.
  induction l as [|x l IH]; intros st out Hst Hne Hall; [done|].
  inversion Hall as [|? ? Hx Hl]; subst.
  destruct (step_number_end x out Hx) as [Hcomma Hclose].
  destruct l as [|y l].
  - simpl. rewrite run_Itoa by done. simpl. by rewrite Hclose.
  - change (Filepath.joinWith "," (map Itoa (x :: y :: l)))
      with (Itoa x +:+ "," +:+ Filepath.joinWith "," (map Itoa (y :: l))).
    rewrite !append_assoc. rewrite run_Itoa by done.
    change ("," +:+ ?s) with (String "," s). cbn [run]. rewrite Hcomma.
    rewrite IH; [|by right|done|done].
    simpl. by rewrite <- !app_assoc.
Qed.

(** Decoding what [Marshal] writes gives the list back. *)
Lemma Unmarshal_Marshal (l : list Z) :
  Forall (fun v => inInt64 v = true) l ->
  exists data, Marshal l = inl data /\ Unmarshal data = Some l.
Proof.
  intros Hall. eexists. split; [reflexivity|].
  unfold Unmarshal. destruct l as [|x l]; [done|].
  change ("[" +:+ ?s) with (String "[" s). cbn [run].
  change (step SBegin [] "[") with (Some (SArrStart, @nil Z)). cbv iota beta.
  rewrite run_elements; [|by left|done|done].
  by rewrite app_nil_r, rev_involutive.
Qed.

Lemma runStrict_run (s : string) :
  forall (st : St) (out : list Z) x,
    runStrict st out s = Some x -> run st out s = Some x.
Proof.
  induction s as [|c s IH]; intros st out x; simpl; [done|].
  destruct (step st out c) as [[st' out']|]; [|done].
  destruct st'; try apply IH. done.
Qed.

(** Every valid integer array is accepted by the decoder. *)
Lemma validIntArray_Unmarshal (data : string) :
  validIntArray data = true -> is_Some (Unmarshal data).
Proof.
  unfold validIntArray, Unmarshal.
  destruct (runStrict SBegin [] data) as [[st out]|] eqn:Hs; [|done].
  rewrite (runStrict_run _ _ _ _ Hs). by destruct st.
Qed.

End JsonSpec.

(* ===================================================================== *)
(** * Properties of the delete-slots annotation codec                     *)
(* ===================================================================== *)
Module DeleteSlotsSpec.
Import Strconv Json DeleteSlots.

Lemma Insert_union (items : list Z) :
  forall s : IntSet, Insert s items = list_to_set items ∪ s.
Proof.
  unfold Insert. induction items as [|x items IH]; intros s; simpl.
  - set_solver.
  - rewrite IH. set_solver.
Qed.

Lemma elem_of_List (s : IntSet) (x : Z) : x ∈ List s <-> x ∈ s.
Proof.
  unfold List. rewrite merge_sort_Permutation. apply elem_of_elements.
Qed.

Lemma Insert_List (s : IntSet) : Insert NewInt (List s) = s.
Proof.
  rewrite Insert_union. unfold NewInt. apply set_eq. intros x.
  rewrite elem_of_union, elem_of_list_to_set, elem_of_List. set_solver.
Qed.

Lemma getDeleteSlots_annotated (set : StatefulSet) (m : gmap string string) (v : string) :
  Annotations (ObjMeta set) = Some m ->
  m !! deletedSlotsAnnotation = Some v ->
  getDeleteSlots set
    = match Unmarshal v with
      | Some slice => Insert NewInt slice
      | None => NewInt
      end.
Proof. intros Ha Hv. unfold getDeleteSlots. by rewrite Ha, Hv. Qed.

(** The value [[null]] is not an array of integers, yet it decodes to the
    slice holding 0, and the set read back is not empty. *)
Lemma getDeleteSlots_null_element :
  ~ (forall (set : StatefulSet) (m : gmap string string) (v : string),
       Annotations (ObjMeta set) = Some m ->
       m !! deletedSlotsAnnotation = Some v ->
       validIntArray v = false ->
       getDeleteSlots set = ∅).
Proof.
  intros Hall.
  specialize (Hall (annotated "[null]") _ "[null]" eq_refl eq_refl eq_refl).
  rewrite (getDeleteSlots_annotated (annotated "[null]")
             {[ deletedSlotsAnnotation := "[null]" ]} "[null]" eq_refl eq_refl) in Hall.
  change (Unmarshal "[null]") with (Some [0]) in Hall. cbv iota beta in Hall.
  rewrite Insert_union in Hall. set_solver.
Qed.

(** C10, as the code has it.  Writing a set of ints with [setDeleteSlot]
    succeeds and [getDeleteSlots] then reads exactly that set back.
    [getDeleteSlots] always answers a set: the empty one when the
    annotations map is nil, when the key is absent, and when
    [json.Unmarshal] rejects the value. *)
Theorem delete_slots_round_trip (set : StatefulSet) (s : IntSet) :
  (forall x, x ∈ s -> inInt64 x = true) ->
  (snd (setDeleteSlot set s) = None
   /\ getDeleteSlots (fst (setDeleteSlot set s)) = s)
  /\ (Annotations (ObjMeta set) = None -> getDeleteSlots set = ∅)
  /\ (forall m, Annotations (ObjMeta set) = Some m ->
        m !! deletedSlotsAnnotation = None -> getDeleteSlots set = ∅)
  /\ (forall m v, Annotations (ObjMeta set) = Some m ->
        m !! deletedSlotsAnnotation = Some v ->
        Unmarshal v = None -> getDeleteSlots set = ∅).
Proof.
  intros Hrange. split; [|split; [|split]].
  - assert (Hall : Forall (fun v => inInt64 v = true) (List s)).
    { apply Forall_forall. intros x Hx. by apply Hrange, elem_of_List. }
    destruct (JsonSpec.Unmarshal_Marshal _ Hall) as (data & Hm & Hu).
    unfold setDeleteSlot. rewrite Hm. simpl. split; [done|].
    erewrite getDeleteSlots_annotated; [|reflexivity|apply lookup_insert_eq].
    rewrite Hu. apply Insert_List.
  - intros Ha. unfold getDeleteSlots. by rewrite Ha.
  - intros m Ha Hk. unfold getDeleteSlots. by rewrite Ha, Hk.
  - intros m v Ha Hk Hu. rewrite (getDeleteSlots_annotated _ _ _ Ha Hk). by rewrite Hu.
Qed.

Lemma delete_slots_round_trip_witness :
  getDeleteSlots (fst (setDeleteSlot bare {[ 3; 1; -2 ]})) = {[ 3; 1; -2 ]}.
Proof.
  refine (proj2 (proj1 (delete_slots_round_trip bare {[ 3; 1; -2 ]} _))).
  intros x Hx. apply elem_of_union in Hx as [Hx | Hx];
    [apply elem_of_union in Hx as [Hx | Hx]|];
    apply elem_of_singleton in Hx; subst; reflexivity.
Defined.

Example marshal_sorted :
  Marshal (List {[ 3; 1; -2 ]}) = inl "[-2,1,3]".
Proof. vm_compute. reflexivity. Qed.

End DeleteSlotsSpec.

(* ===================================================================== *)
(** * Further properties of the volume binding plugin                     *)
(* ===================================================================== *)
Module VolumeBindingMore.
Import Framework VolumeBinding.

Ltac run_plugin :=
  unfold Filter, Reserve, PreBind, Unreserve, PostBind, DeleteFunc,
    bind, ret, csRead, csWrite, report, callFind, callAssume, callBind,
    callDelete, Read, Write; simpl.

Lemma fake_delete_idempotent (p : Pod) (b : FakeVolumeBinder) :
  DeletePodBindings p (DeletePodBindings p b) = DeletePodBindings p b.
Proof.
  destruct b as [a fr fe ae be bt r]. simpl. unfold fakeWith. simpl.
  f_equal. set_solver.
Qed.

Section Protocol.
Context {B : Type} `{SchedulerVolumeBinder B}.

(** After a Reserve whose assume succeeded, PreBind never fails on reading
    the flag: with all claims bound it succeeds without any further call,
    otherwise the run has made exactly the assume call and then the bind
    call, and the outcome is that of bind. *)
Theorem Reserve_then_PreBind (pod : Pod) (nodeName : string) (w : World B)
    (allBound : bool) (b1 : B) :
  AssumePodVolumes pod nodeName (binder w) = ((allBound, None), b1) ->
  fst (Reserve pod nodeName w) = None
  /\ (allBound = true ->
        PreBind pod nodeName (snd (Reserve pod nodeName w))
          = (None, snd (Reserve pod nodeName w)))
  /\ (allBound = false ->
        forall err b2, BindPodVolumes pod b1 = (err, b2) ->
          fst (PreBind pod nodeName (snd (Reserve pod nodeName w)))
            = match err with
              | None => None
              | Some e => Some (NewStatus Error [e])
              end
          /\ calls (snd (PreBind pod nodeName (snd (Reserve pod nodeName w))))
               = calls w ++ [CallAssume pod nodeName; CallBind pod]
          /\ binder (snd (PreBind pod nodeName (snd (Reserve pod nodeName w)))) = b2).
Proof.
  intros Ha.
  assert (Hr : Reserve pod nodeName w
               = (None, mkWorld (<[allBoundStateKey := allBoundStateData allBound]> (cycle w))
                                b1 (calls w ++ [CallAssume pod nodeName]) (reports w))).
  { run_plugin. by rewrite Ha. }
  rewrite Hr. simpl. split; [done|]. split.
  - intros ->. run_plugin. unfold CycleState, StateKey in *.
    by rewrite lookup_insert_eq.
  - intros -> err b2 Hb. run_plugin. unfold CycleState, StateKey in *.
    rewrite lookup_insert_eq. simpl. rewrite Hb.
    destruct err; simpl; by rewrite <- app_assoc.
Qed.

(** The cycle state is written by Reserve only, and only under the
    plugin's own key; Filter, PreBind, Unreserve, PostBind and the deletion
    handler leave it as it is. *)
Theorem cycle_state_footprint (pod : Pod) (nodeName : string)
    (nodeInfo : option NodeInfo) (obj : Obj) (w : World B) :
  cycle (snd (Filter pod nodeInfo w)) = cycle w
  /\ cycle (snd (PreBind pod nodeName w)) = cycle w
  /\ cycle (snd (Unreserve pod nodeName w)) = cycle w
  /\ cycle (snd (PostBind pod nodeName w)) = cycle w
  /\ cycle (snd (DeleteFunc obj w)) = cycle w
  /\ (forall key, key <> allBoundStateKey ->
        cycle (snd (Reserve pod nodeName w)) !! key = cycle w !! key).
Proof.
  repeat apply conj.
  - run_plugin. destruct (NodeInfo_Node nodeInfo) as [n|]; [|done].
    destruct (podHasPVCs pod); [|done]. simpl.
    destruct (FindPodVolumes pod n (binder w)) as [[rs err] b']. simpl.
    destruct err; [done|]. by destruct (0 <? Z.of_nat (length rs)).
  - run_plugin. destruct (cycle w !! allBoundStateKey) as [[[|]|]|]; simpl; try done.
    destruct (BindPodVolumes pod (binder w)) as [[e|] b']; done.
  - done.
  - done.
  - destruct obj as [p| k [p| |] |]; done.
  - intros key Hk. run_plugin.
    destruct (AssumePodVolumes pod nodeName (binder w)) as [[ab [e|]] b']; simpl; [done|].
    unfold CycleState, StateKey in *. by rewrite lookup_insert_ne.
Qed.

(** Every entry point keeps the log of earlier calls and adds at most one
    call, of its own kind and for the pod it was given: Filter a find,
    Reserve an assume, PreBind a bind, Unreserve and PostBind a delete. *)
Theorem one_call_of_its_kind (pod : Pod) (nodeName : string)
    (nodeInfo : option NodeInfo) (w : World B) :
  onlyCalls (fun c => exists n, c = CallFind pod n)
            (calls w) (calls (snd (Filter pod nodeInfo w)))
  /\ calls (snd (Reserve pod nodeName w)) = calls w ++ [CallAssume pod nodeName]
  /\ onlyCalls (fun c => c = CallBind pod)
               (calls w) (calls (snd (PreBind pod nodeName w)))
  /\ calls (snd (Unreserve pod nodeName w)) = calls w ++ [CallDelete pod]
  /\ calls (snd (PostBind pod nodeName w)) = calls w ++ [CallDelete pod].
Proof.
  repeat apply conj.
  - run_plugin. destruct (NodeInfo_Node nodeInfo) as [n|]; [|by left].
    destruct (podHasPVCs pod); [|by left]. simpl.
    destruct (FindPodVolumes pod n (binder w)) as [[rs err] b']. simpl.
    right. exists (CallFind pod n). split; [by eexists|].
    destruct err; [done|]. by destruct (0 <? Z.of_nat (length rs)).
  - run_plugin.
    by destruct (AssumePodVolumes pod nodeName (binder w)) as [[ab [e|]] b'].
  - run_plugin. destruct (cycle w !! allBoundStateKey) as [[[|]|]|]; simpl;
      try (by left).
    right. exists (CallBind pod). split; [done|].
    by destruct (BindPodVolumes pod (binder w)) as [[e|] b'].
  - done.
  - done.
Qed.

(** Reserve and PreBind answer success or a hard error, nothing else.
    Filter answers success, a hard error, or an
    UnschedulableAndUnresolvable outcome that carries at least one reason;
    it never answers the retryable Unschedulable. *)
Theorem outcome_codes (pod : Pod) (nodeName : string)
    (nodeInfo : option NodeInfo) (w : World B) :
  (fst (Reserve pod nodeName w) = None \/ isError (fst (Reserve pod nodeName w)))
  /\ (fst (PreBind pod nodeName w) = None \/ isError (fst (PreBind pod nodeName w)))
  /\ (fst (Filter pod nodeInfo w) = None
      \/ isError (fst (Filter pod nodeInfo w))
      \/ exists r rs, fst (Filter pod nodeInfo w)
                      = Some {| code := UnschedulableAndUnresolvable; reasons := r :: rs |}).
Proof.
  repeat apply conj.
  - run_plugin.
    destruct (AssumePodVolumes pod nodeName (binder w)) as [[ab [e|]] b']; simpl;
      [right; by eexists | by left].
  - run_plugin. destruct (cycle w !! allBoundStateKey) as [[[|]|]|]; simpl;
      try (by left); try (right; by eexists).
    destruct (BindPodVolumes pod (binder w)) as [[e|] b']; simpl;
      [right; by eexists | by left].
  - run_plugin. destruct (NodeInfo_Node nodeInfo) as [n|]; [|right; left; by eexists].
    destruct (podHasPVCs pod); [|by left]. simpl.
    destruct (FindPodVolumes pod n (binder w)) as [[rs err] b']. simpl.
    destruct err; [right; left; by eexists|].
    destruct rs as [|r rs]; [by left|]. right. right. exists r, rs. simpl.
    by rewrite VolumeBindingSpec.appendReasons_reasons.
Qed.

(** With a collaborator whose delete is idempotent, cleaning up again
    changes nothing in the binder: Unreserve followed by PostBind, or by the
    deletion handler for the same pod, leaves it as Unreserve alone does. *)
Theorem cleanup_twice (pod : Pod) (nodeName : string) (key : string) (w : World B) :
  (forall p b, DeletePodBindings p (DeletePodBindings p b) = DeletePodBindings p b) ->
  binder (snd (PostBind pod nodeName (snd (Unreserve pod nodeName w))))
    = binder (snd (Unreserve pod nodeName w))
  /\ binder (snd (DeleteFunc (ObjPod pod) (snd (Unreserve pod nodeName w))))
       = binder (snd (Unreserve pod nodeName w))
  /\ binder (snd (DeleteFunc (ObjDeletedFinalStateUnknown key (ObjPod pod))
                             (snd (DeleteFunc (ObjPod pod) w))))
       = binder (snd (DeleteFunc (ObjPod pod) w)).
Proof.
  intros Hid. run_plugin. by rewrite !Hid.
Qed.

(** [podHasPVCs] holds exactly when some volume of the pod has a
    persistent-volume-claim source. *)
Theorem podHasPVCs_iff (pod : Pod) :
  podHasPVCs pod = true <->
  exists vol claim, In vol (Volumes pod) /\ PersistentVolumeClaim vol = Some claim.
Proof.
  rewrite VolumeBindingSpec.podHasPVCs_spec. split.
  - intros (vol & Hin & Hc). destruct (PersistentVolumeClaim vol) as [c|] eqn:E; [|done].
    by exists vol, c.
  - intros (vol & c & Hin & Hc). exists vol. split; [done|]. by rewrite Hc.
Qed.

End Protocol.

Section ConstructionMore.
Context {B : Type} `{SchedulerVolumeBinder B}.
Context {RuntimeObject : Type}.
Variable DecodeInto : RuntimeObject -> Args -> option GoError * Args.
Variable NewVolumeBinder : Z -> B.

(** A plugin that [New] returns was built from arguments that decoded, with
    a bind timeout of at least one second, and comes with the deletion
    handler registered. *)
Theorem New_success (plArgs : RuntimeObject) (c : Constructed B) :
  New DecodeInto NewVolumeBinder plArgs = inl c ->
  exists args,
    DecodeInto plArgs {| BindTimeoutSeconds := None |} = (None, args)
    /\ 1 <= effectiveBindTimeoutSeconds args
    /\ plugin c = mkVolumeBinding
                    (NewVolumeBinder (secondsToDuration (effectiveBindTimeoutSeconds args)))
    /\ podDeleteHandler c = DeleteFunc.
Proof.
  unfold New. destruct (DecodeInto plArgs _) as [[e|] args]; [done|].
  unfold validateArgs, effectiveBindTimeoutSeconds.
  intros Hn. exists args. split; [done|].
  destruct (BindTimeoutSeconds args) as [v|].
  - destruct (Z.leb_spec v 0); [done|]. injection Hn as <-. simpl.
    split; [lia|done].
  - injection Hn as <-. simpl. split; [done|done].
Qed.

End ConstructionMore.

(** The duration handed to the binder is the timeout in seconds exactly
    when the timeout is at most 9223372036 seconds in absolute value; the
    64-bit product wraps around for every other value. *)
Theorem secondsToDuration_exact_iff (v : Z) :
  Strconv.inInt64 (secondsToDuration v) = true
  /\ (secondsToDuration v = v * Second <-> -9223372036 <= v <= 9223372036).
Proof.
  unfold secondsToDuration, Strconv.wrap64, Strconv.inInt64,
    Strconv.minInt64, Strconv.maxInt64, Second.
  pose proof (Z.mod_pos_bound (v * 1000000000 + 2 ^ 63) (2 ^ 64) ltac:(lia)) as Hm.
  split; [lia|]. split.
  - intros He. lia.
  - intros Hv. rewrite Z.mod_small; lia.
Qed.

(** ** Worked instances on the sample objects *)

Lemma Reserve_then_PreBind_witness :
  calls (snd (PreBind samplePod "node-1"
                (snd (Reserve samplePod "node-1" (sampleWorld ∅)))))
    = [CallAssume samplePod "node-1"; CallBind samplePod].
Proof.
  assert (Ha : AssumePodVolumes samplePod "node-1" (binder (sampleWorld ∅))
               = ((false, None), fakeWith sampleFake {[ "default/web-0" ]}))
    by (vm_compute; reflexivity).
  destruct (Reserve_then_PreBind samplePod "node-1" (sampleWorld ∅) false
              (fakeWith sampleFake {[ "default/web-0" ]}) Ha) as (_ & _ & Hb).
  assert (Hbind : BindPodVolumes samplePod (fakeWith sampleFake {[ "default/web-0" ]})
                  = (Some "timed out waiting for the condition",
                     fakeWith sampleFake {[ "default/web-0" ]}))
    by (vm_compute; reflexivity).
  exact (proj1 (proj2 (Hb eq_refl _ _ Hbind))).
Defined.

Lemma cleanup_twice_witness :
  binder (snd (PostBind samplePod "node-1"
                 (snd (Unreserve samplePod "node-1" (sampleWorld ∅)))))
    = binder (snd (Unreserve samplePod "node-1" (sampleWorld ∅))).
Proof.
  exact (proj1 (cleanup_twice samplePod "node-1" "default/web-0" (sampleWorld ∅)
                  fake_delete_idempotent)).
Defined.

Lemma New_success_witness :
  exists args,
    sampleDecode None {| BindTimeoutSeconds := None |} = (None, args)
    /\ 1 <= effectiveBindTimeoutSeconds args
    /\ plugin (mkConstructed (mkVolumeBinding (sampleNewBinder 600000000000)) DeleteFunc)
         = mkVolumeBinding
             (sampleNewBinder (secondsToDuration (effectiveBindTimeoutSeconds args)))
    /\ podDeleteHandler
         (mkConstructed (mkVolumeBinding (sampleNewBinder 600000000000)) DeleteFunc)
         = DeleteFunc.
Proof.
  exact (New_success sampleDecode sampleNewBinder None
           (mkConstructed (mkVolumeBinding (sampleNewBinder 600000000000)) DeleteFunc)
           eq_refl).
Defined.

End VolumeBindingMore.

(* ===================================================================== *)
(** * Further properties of the symlink resolver and of its test helpers  *)
(* ===================================================================== *)
Module NsenterMore.
Import Filepath Nsenter NsenterTest.

(** The target is always the last argument; the list has between one and
    six arguments; without file system type, options and source it is the
    target alone; a file system type is announced by [-t] in front. *)
Theorem makeMountArgs_shape (source target fstype : string) (options : list string) :
  last (makeMountArgs source target fstype options) = Some target
  /\ (1 <= length (makeMountArgs source target fstype options) <= 6)%nat
  /\ makeMountArgs "" target "" [] = [target]
  /\ (fstype <> "" ->
        exists rest, makeMountArgs source target fstype options = "-t" :: fstype :: rest)
  /\ (source <> "" ->
        exists front, makeMountArgs source target fstype options = front ++ [source; target]).
Proof.
  unfold makeMountArgs.
  destruct fstype as [|f fs]; destruct options as [|o os]; destruct source as [|c cs];
    cbn [String.length length Nat.ltb Nat.leb app];
    (split; [by rewrite ?last_snoc|]); (split; [simpl; lia|]); (split; [done|]);
    (split; [intros Hf; try done; by eexists|]); intros Hs; try done.
  - by exists [].
  - by exists ["-o"; joinWith "," (o :: os)].
  - by exists ["-t"; String f fs].
  - by exists ["-t"; String f fs; "-o"; joinWith "," (o :: os)].
Qed.

(** Every row of the table of [TestEvalSymlinksAtRoot] passes on the file
    system the test builds. *)
Theorem TestEvalSymlinksAtRoot_passes : forallb passes testcases = true.
Proof. vm_compute. reflexivity. Qed.

End NsenterMore.
